(** * esphome_mdllm: the Markdown aggregator and its fallback PDF renderer

    A shallow embedding of [src/md_to_pdf.py] (the tree walker that turns a
    Mistune token tree into a ReportLab flow) and of the two functions of
    [src/build_all_md.py] that carry logic of their own ([demote_headings]
    and the renderer dispatch [run_pandoc] / [main]).

    - A Python [str] that is only concatenated, joined and tested for
      emptiness is a [string] holding its UTF-8 bytes.
    - A Python [str] scanned by a regular expression is a list of code
      points (module [Aggregator]).
    - A token (a Python [dict]) is a record with one optional field per key
      the code reads; reading an absent key raises [KeyError].
    - Exceptions are values of [res]. *)

From stdpp Require Import base option list strings gmap.
From Stdlib Require Import ZArith Lia Qcanon Sorted.

Local Open Scope string_scope.
Local Open Scope Z_scope.
Local Open Scope list_scope.

(** ** Exceptions *)

Inductive exn : Type :=
| KeyError (key : string)
| IndexError.

Inductive res (A : Type) : Type :=
| Ok (a : A)
| Raise (e : exn).
Arguments Ok {A} a.
Arguments Raise {A} e.

Declare Scope res_scope.
Delimit Scope res_scope with res.
Notation "x <- c1 ;; c2" :=
  (match c1 with
   | Ok x => c2
   | Raise e => Raise e
   end)
  (at level 100, c1 at next level, right associativity) : res_scope.
(** [x = d[key]] on a dict whose entry for [key] is [o]; an absent key
    raises [KeyError]. *)
Notation "x <-[ key ] o ;; c" :=
  (match o with
   | Some x => c
   | None => Raise (KeyError key)
   end)
  (at level 100, o at next level, right associativity) : res_scope.
Local Open Scope res_scope.

(** [d[key]] as a value. *)
Definition getitem {A} (key : string) (o : option A) : res A :=
  match o with
  | Some a => Ok a
  | None => Raise (KeyError key)
  end.

(** ** Strings *)

Definition nl : string := String (Ascii.ascii_of_nat 10) "".

(** U+2014 EM DASH, in UTF-8. *)
Definition em_dash : string :=
  String (Ascii.ascii_of_nat 226) (String (Ascii.ascii_of_nat 128) (String (Ascii.ascii_of_nat 148) "")).

(** [s * n] *)
Fixpoint repeat_str (s : string) (n : nat) : string :=
  match n with
  | O => ""
  | S n' => s +:+ repeat_str s n'
  end.

(** [sep.join(l)] *)
Fixpoint join (sep : string) (l : list string) : string :=
  match l with
  | [] => ""
  | [s] => s
  | s :: rest => s +:+ sep +:+ join sep rest
  end.

(** ** Tokens *)

Record attrs_dict : Type := Attrs {
  url : option string;
  alt : option string;
  level : option Z;
  ordered : option bool
}.

#[local] Set Warnings "-register-all".
Inductive node : Type := Node {
  type : string;
  raw : option string;
  text : option string;
  children : option (list node);
  attrs : option attrs_dict
}.

(** ** The inline composer *)

Fixpoint inline_node (n : node) : res string :=
  let inline :=
    fix inline (out : string) (cs : list node) : res string :=
      match cs with
      | [] => Ok out
      | c :: rest => s <- inline_node c ;; inline (out +:+ s) rest
      end in
  match n with
  | Node t n_raw _ n_children n_attrs =>
    if String.eqb t "text" then
      r <-[ "raw" ] n_raw ;; Ok r
    else if String.eqb t "linebreak" then Ok "<br/>"
    else if String.eqb t "softbreak" then Ok " "
    else if String.eqb t "emphasis" then
      cs <-[ "children" ] n_children ;;
      s <- inline "" cs ;;
      Ok ("<i>" +:+ s +:+ "</i>")
    else if String.eqb t "strong" then
      cs <-[ "children" ] n_children ;;
      s <- inline "" cs ;;
      Ok ("<b>" +:+ s +:+ "</b>")
    else if String.eqb t "link" then
      cs <-[ "children" ] n_children ;;
      label <- inline "" cs ;;
      a <-[ "attrs" ] n_attrs ;;
      href <-[ "url" ] url a ;;
      Ok (if String.eqb href "" then label else label +:+ " (" +:+ href +:+ ")")
    else if String.eqb t "codespan" then
      r <-[ "raw" ] n_raw ;;
      Ok ("<font face='Courier'>" +:+ r +:+ "</font>")
    else if String.eqb t "image" then
      a <-[ "attrs" ] n_attrs ;;
      let alt := default "" (alt a) in
      src <-[ "url" ] url a ;;
      Ok ("[Image: " +:+ alt +:+ "] (" +:+ src +:+ ")")
    else
      match n_children with
      | Some cs => inline "" cs
      | None => Ok ""
      end
  end.

Fixpoint inline_from (out : string) (cs : list node) : res string :=
  match cs with
  | [] => Ok out
  | c :: rest => s <- inline_node c ;; inline_from (out +:+ s) rest
  end.

(** [inline(children)] *)
Definition inline (cs : list node) : res string := inline_from "" cs.

(** ** The style registry

    ReportLab's sample style sheet is the library's; of it only the five
    entries the code reads are kept, without ReportLab's layout values. A
    style records its name, its parent and the attributes the code sets. *)

Inductive setting : Type :=
| SInt (z : Z)
| SStr (s : string)
| SNone.

Record ParagraphStyle : Type := mkStyle {
  name : string;
  parent : option string;
  settings : gmap string setting
}.

Definition getSampleStyleSheet : gmap string ParagraphStyle :=
  list_to_map
    (map (fun n => (n, mkStyle n None ∅))
         ["Heading1"; "Heading2"; "Heading3"; "Code"; "BodyText"]).

(** [ss[name]] *)
Definition ss_getitem (ss : gmap string ParagraphStyle) (key : string)
  : res ParagraphStyle :=
  getitem key (ss !! key).

(** [ss.add(ParagraphStyle(name=..., parent=ss[parent], **kw))]; ReportLab
    refuses a name that is already registered. *)
Definition ss_add (ss : gmap string ParagraphStyle) (new_name parent_name : string)
    (kw : gmap string setting) : res (gmap string ParagraphStyle) :=
  p <- ss_getitem ss parent_name ;;
  match ss !! new_name with
  | Some _ => Raise (KeyError new_name)
  | None => Ok (<[new_name := mkStyle new_name (Some (name p)) kw]> ss)
  end.

(** [style.attr = v] *)
Definition setattr (sty : ParagraphStyle) (attr : string) (v : setting)
  : ParagraphStyle :=
  mkStyle (name sty) (parent sty) (<[attr := v]> (settings sty)).

(** [_styles()]. The ["Code"] style is the object the sheet holds, so the
    assignments to its attributes update the entry of the sheet. *)
Definition _styles : res (gmap string ParagraphStyle) :=
  let ss := getSampleStyleSheet in
  ss <- ss_add ss "H1" "Heading1"
          {[ "spaceBefore" := SInt 12; "spaceAfter" := SInt 6 ]} ;;
  ss <- ss_add ss "H2" "Heading2"
          {[ "spaceBefore" := SInt 12; "spaceAfter" := SInt 6 ]} ;;
  ss <- ss_add ss "H3" "Heading3"
          {[ "spaceBefore" := SInt 10; "spaceAfter" := SInt 4 ]} ;;
  code_style <- ss_getitem ss "Code" ;;
  let code_style := setattr code_style "fontName" (SStr "Courier") in
  let code_style := setattr code_style "fontSize" (SInt 9) in
  let code_style := setattr code_style "leading" (SInt 11) in
  let code_style := setattr code_style "leftIndent" (SInt 6) in
  let code_style := setattr code_style "rightIndent" (SInt 6) in
  let code_style := setattr code_style "backColor" SNone in
  let code_style := setattr code_style "spaceBefore" (SInt 6) in
  let code_style := setattr code_style "spaceAfter" (SInt 6) in
  let ss := <["Code" := code_style]> ss in
  ss_add ss "Body" "BodyText" {[ "spaceAfter" := SInt 6 ]}.

(** ** The output flow *)

Inductive flowable : Type :=
| Paragraph (text : string) (style : ParagraphStyle)
| ListItem (body : flowable)
| ListFlowable (items : list flowable) (bulletType : string) (start : string)
| Preformatted (text : string) (style : ParagraphStyle)
| HRFlowable (width : string) (thickness : Qc)
| Spacer (width height : Z).

Definition half : Qc := Q2Qc (QArith_base.Qmake 1 2).

Section Handlers.
Variable ss : gmap string ParagraphStyle.

Definition para (text : string) (flow : list flowable) : res (list flowable) :=
  body <- ss_getitem ss "Body" ;;
  Ok (flow ++ [Paragraph text body]).

Definition heading_names : gmap Z string :=
  {[ 1 := "H1"; 2 := "H2"; 3 := "H3" ]}.

Definition heading (text : string) (level : Z) (flow : list flowable)
  : res (list flowable) :=
  let name := default "H3" (heading_names !! level) in
  sty <- ss_getitem ss name ;;
  Ok (flow ++ [Paragraph text sty]).

Fixpoint list_items (items : list string) : res (list flowable) :=
  match items with
  | [] => Ok []
  | it :: rest =>
      body <- ss_getitem ss "Body" ;;
      lst <- list_items rest ;;
      Ok (ListItem (Paragraph it body) :: lst)
  end.

Definition bullet_list (items : list string) (ordered : bool)
    (flow : list flowable) : res (list flowable) :=
  lst <- list_items items ;;
  Ok (flow ++ [ListFlowable lst (if ordered then "1" else "bullet") "1"]).

Definition codeblock (code : string) (flow : list flowable)
  : res (list flowable) :=
  sty <- ss_getitem ss "Code" ;;
  Ok (flow ++ [Preformatted code sty]).

Definition hr (flow : list flowable) : res (list flowable) :=
  let flow := flow ++ [Spacer 1 6] in
  let flow := flow ++ [HRFlowable "100%" half] in
  let flow := flow ++ [Spacer 1 6] in
  Ok flow.
End Handlers.

(** ** The block walker *)

(** [[f(x) for x in l]], stopping at the first exception. *)
Fixpoint map_res {A B} (f : A -> res B) (l : list A) : res (list B) :=
  match l with
  | [] => Ok []
  | x :: rest => y <- f x ;; ys <- map_res f rest ;; Ok (y :: ys)
  end.

(** The inner loop of the list branch, over [li.get("children", [])]. *)
Fixpoint chunks_of (cs : list node) : res (list string) :=
  match cs with
  | [] => Ok []
  | c :: rest =>
      if String.eqb (type c) "paragraph" then
        ch <-[ "children" ] children c ;;
        s <- inline ch ;;
        chunks <- chunks_of rest ;;
        Ok (s :: chunks)
      else if String.eqb (type c) "text" then
        s <-[ "text" ] text c ;;
        chunks <- chunks_of rest ;;
        Ok (s :: chunks)
      else chunks_of rest
  end.

(** One pass of the outer loop of the list branch: the string of one item. *)
Definition item_of (li : node) : res string :=
  chunks <- chunks_of (default [] (children li)) ;;
  Ok (join " " chunks).

(** [" | ".join([inline(cell["children"]) for cell in row["children"]])] *)
Definition cell_text (cell : node) : res string :=
  ch <-[ "children" ] children cell ;; inline ch.

Definition row_line (row : node) : res string :=
  cells <-[ "children" ] children row ;;
  texts <- map_res cell_text cells ;;
  Ok (join " | " texts).

(** The text of the paragraph a table is rendered as. *)
Definition table_text (n : node) : res string :=
  rows <-[ "children" ] children n ;;
  match rows with
  | [] => Raise IndexError
  | first :: body =>
      header <- row_line first ;;
      rows <- map_res row_line body ;;
      Ok (join nl ([header] ++ [repeat_str em_dash 20] ++ rows))
  end.

(** The text between the quotation marks of a block quote. *)
Definition quote_text (n : node) : res string :=
  match children n with
  | Some (first :: _) => ch <-[ "children" ] children first ;; inline ch
  | Some [] | None => Ok ""
  end.

Section Walker.
Variable ss : gmap string ParagraphStyle.

(** The body of the [while] loop for the token [n]. *)
Definition block (n : node) (flow : list flowable) : res (list flowable) :=
  let t := type n in
  if String.eqb t "heading" then
    ch <-[ "children" ] children n ;;
    txt <- inline ch ;;
    a <-[ "attrs" ] attrs n ;;
    lvl <-[ "level" ] level a ;;
    heading ss txt lvl flow
  else if String.eqb t "paragraph" then
    ch <-[ "children" ] children n ;;
    txt <- inline ch ;;
    para ss txt flow
  else if String.eqb t "block_quote" then
    txt <- quote_text n ;;
    body <- ss_getitem ss "Body" ;;
    Ok (flow ++ [Paragraph ("&ldquo;" +:+ txt +:+ "&rdquo;") body])
  else if String.eqb t "list" then
    lis <-[ "children" ] children n ;;
    items <- map_res item_of lis ;;
    a <-[ "attrs" ] attrs n ;;
    bullet_list ss items (default false (ordered a)) flow
  else if String.eqb t "thematic_break" then
    hr flow
  else if String.eqb t "code" then
    code <-[ "text" ] text n ;;
    codeblock ss code flow
  else if String.eqb t "table" then
    txt <- table_text n ;;
    para ss txt flow
  else
    match children n with
    | Some ch => txt <- inline ch ;; para ss txt flow
    | None => Ok flow
    end.

(** [i = 0; while i < len(ast): node = ast[i]; ...; i += 1], as a
    recursion on the tokens still to visit. *)
Fixpoint walk (ast : list node) (flow : list flowable) : res (list flowable) :=
  match ast with
  | [] => Ok flow
  | n :: rest => flow <- block n flow ;; walk rest flow
  end.
End Walker.

(** [md_to_pdf], from the token list [ast] that Mistune returns for
    [md_text] to the flow handed to [doc.build]. *)
Definition md_to_pdf (ast : list node) : res (list flowable) :=
  ss <- _styles ;;
  walk ss ast [].

(** ** Tokens for examples *)

Definition text_node (s : string) : node :=
  Node "text" (Some s) None None None.
Definition inline_parent (t : string) (cs : list node) : node :=
  Node t None None (Some cs) None.
Definition link_node (cs : list node) (href : string) : node :=
  Node "link" None None (Some cs) (Some (Attrs (Some href) None None None)).
Definition paragraph_node (s : string) : node :=
  inline_parent "paragraph" [text_node s].
Definition heading_node (lvl : Z) (s : string) : node :=
  Node "heading" None None (Some [text_node s])
       (Some (Attrs None None (Some lvl) None)).
Definition list_node (ord : option bool) (lis : list node) : node :=
  Node "list" None None (Some lis) (Some (Attrs None None None ord)).
Definition code_node (s : string) : node :=
  Node "code" None (Some s) None None.
Definition thematic_break_node : node :=
  Node "thematic_break" None None None None.
Definition table_row (cells : list string) : node :=
  inline_parent "table_row"
    (map (fun s => inline_parent "table_cell" [text_node s]) cells).

(** ** Well-formed tokens

    What Mistune guarantees of the tokens it returns: a token of a kind the
    composer knows carries the keys of that kind, at every depth. *)

Fixpoint wf_inline (n : node) : bool :=
  let all :=
    fix all (cs : list node) : bool :=
      match cs with
      | [] => true
      | c :: rest => wf_inline c && all rest
      end in
  match n with
  | Node t n_raw _ n_children n_attrs =>
    let wf_children :=
      match n_children with Some cs => all cs | None => false end in
    let has_url :=
      match n_attrs with Some a => bool_decide (is_Some (url a)) | None => false end in
    if String.eqb t "text" then bool_decide (is_Some n_raw)
    else if String.eqb t "linebreak" then true
    else if String.eqb t "softbreak" then true
    else if String.eqb t "emphasis" then wf_children
    else if String.eqb t "strong" then wf_children
    else if String.eqb t "link" then wf_children && has_url
    else if String.eqb t "codespan" then bool_decide (is_Some n_raw)
    else if String.eqb t "image" then has_url
    else match n_children with Some cs => all cs | None => true end
  end.

Definition wf_inlines (cs : list node) : bool := forallb wf_inline cs.





(** The kinds the walker has a branch for. *)
Definition recognized (t : string) : bool :=
  bool_decide (t ∈ ["heading"; "paragraph"; "block_quote"; "list";
                     "thematic_break"; "code"; "table"]).





(** ** The aggregator: [demote_headings]

    The regular expression looks at single characters, so here a [str] is
    the list of its code points. *)

Module Aggregator.

Definition hash : Z := 35.
Definition space : Z := 32.
Definition newline : Z := 10.

(** [\s] in a [str] pattern: the code points for which [str.isspace()]
    holds. *)
Definition is_space (c : Z) : bool :=
  ((9 <=? c) && (c <=? 13)) || ((28 <=? c) && (c <=? 32))
  || (c =? 133) || (c =? 160) || (c =? 5760)
  || ((8192 <=? c) && (c <=? 8202))
  || (c =? 8232) || (c =? 8233) || (c =? 8239) || (c =? 8287) || (c =? 12288).

(** ["#" * n], empty for [n <= 0]. *)
Definition hashes (n : Z) : list Z := replicate (Z.to_nat n) hash.

(** [s] starts with [k] hashes followed by one whitespace character. *)
Fixpoint hashes_then_space (k : nat) (s : list Z) : bool :=
  match k, s with
  | O, w :: _ => is_space w
  | S k', c :: rest => (c =? hash) && hashes_then_space k' rest
  | _, [] => false
  end.

(** [(#{1,6})\s] tried at the head of [s]: the greedy quantifier takes as
    many hashes as it can and gives them back one at a time, from [k] down
    to 1. The result is [len(m.group(1))]. *)
Fixpoint match_marker (k : nat) (s : list Z) : option nat :=
  match k with
  | O => None
  | S k' => if hashes_then_space k s then Some k else match_marker k' s
  end.

(** [repl(m)] for a match whose group 1 has [k] hashes. *)
Definition repl (delta : Z) (k : nat) : list Z :=
  hashes (Z.min 6 (Z.of_nat k + delta)) ++ [space].

(** [re.sub] with [(?m)^(#{1,6})\s], left to right. [bol] says that [^]
    matches here (start of the string or just after a newline); [pending]
    counts the characters of the current match still to be consumed. *)
Fixpoint sub_scan (delta : Z) (bol : bool) (pending : nat) (s : list Z)
  : list Z :=
  match s with
  | [] => []
  | c :: rest =>
      match pending with
      | S p => sub_scan delta (c =? newline) p rest
      | O =>
          match (if bol then match_marker 6 s else None) with
          | Some k => repl delta k ++ sub_scan delta (c =? newline) k rest
          | None => c :: sub_scan delta (c =? newline) 0 rest
          end
      end
  end.

Definition demote_headings (md : list Z) (delta : Z) : list Z :=
  sub_scan delta true 0 md.

(** The code points of an ASCII literal. *)
Definition str (s : string) : list Z :=
  map (fun a => Z.of_N (Ascii.N_of_ascii a)) (String.list_ascii_of_string s).

(** *** The line-by-line reading of the demotion *)

(** The number of hashes at the head of [s]. *)
Fixpoint count_hashes (s : list Z) : nat :=
  match s with
  | c :: rest => if c =? hash then S (count_hashes rest) else O
  | [] => O
  end.

(** [line] opens with a marker: 1 to 6 hashes, then a whitespace
    character. The result is the number of hashes. *)
Definition marker (line : list Z) : option nat :=
  let k := count_hashes line in
  if bool_decide (1 <= k <= 6)%nat then
    match drop k line with
    | w :: _ => if is_space w then Some k else None
    | [] => None
    end
  else None.

(** A marked line gets its hashes replaced and the whitespace character
    after them turned into one space; any other line is kept. *)
Definition demote_line (delta : Z) (line : list Z) : list Z :=
  match marker line with
  | Some k => repl delta k ++ drop (S k) line
  | None => line
  end.

(** [md.splitlines(keepends=True)], for the newline character only. *)
Fixpoint lines (s : list Z) : list (list Z) :=
  match s with
  | [] => []
  | c :: rest =>
      if c =? newline then [c] :: lines rest
      else match lines rest with
           | [] => [[c]]
           | l :: ls => (c :: l) :: ls
           end
  end.

(** A line and what follows it: [tail] runs to the end of the string
    without meeting a newline, or ends with the first newline. *)
Inductive line_end : list Z -> list Z -> Prop :=
| line_end_eof (u : list Z) :
    newline ∉ u -> line_end u []
| line_end_newline (u rest : list Z) :
    newline ∉ u -> line_end (u ++ [newline]) rest.

(** The demotion as the specification words it: the hashes of a marked line are
    replaced, everything after them is kept. *)
Definition claimed_demote_line (delta : Z) (line : list Z) : list Z :=
  match marker line with
  | Some k => hashes (Z.min 6 (Z.of_nat k + delta)) ++ drop k line
  | None => line
  end.

End Aggregator.

(** ** The renderer dispatch: [run_pandoc] and [main] *)

Module Dispatch.

(** The host a run sees: whether the source tree is there, what
    [shutil.which] finds, and the exit status of a command line. *)
Record host : Type := Host {
  src_exists : bool;
  which : string -> option string;
  returncode : list string -> Z
}.

Inductive event : Type :=
| Subprocess (args : list string)
| MdToPdf (md_path pdf_path : string).

Definition OUT_MD : string := "data/esphome-all.md".
Definition OUT_PDF : string := "data/esphome-all.pdf".

(** Truth value of what [shutil.which] returns. *)
Definition found (o : option string) : bool :=
  match o with
  | Some p => negb (String.eqb p "")
  | None => false
  end.

Definition pandoc_args (pandoc md_path pdf_path : string) : list string :=
  [pandoc; md_path; "-o"; pdf_path; "--from"; "markdown+smart"; "--toc"].

(** [subprocess.run(args, check=True)] returns when the exit status is 0
    and raises [CalledProcessError] otherwise. The result is the trace of
    renderer invocations and the returned boolean. The console messages
    are left out, and so is a command that cannot be started at all. *)
Definition run_pandoc (h : host) (md_path pdf_path : string)
  : list event * bool :=
  let pandoc := which h "pandoc" in
  if negb (found pandoc) then ([], false)
  else
    let args := pandoc_args (default "" pandoc) md_path pdf_path in
    if returncode h args =? 0 then ([Subprocess args], true)
    else if found (which h "wkhtmltopdf") then
      let args2 := args ++ ["--pdf-engine=wkhtmltopdf"] in
      if returncode h args2 =? 0
      then ([Subprocess args; Subprocess args2], true)
      else ([Subprocess args; Subprocess args2], false)
    else ([Subprocess args], false).

Inductive outcome : Type :=
| Returned
| SystemExit.

(** [main]: [write_markdown] exits when the source tree is missing;
    otherwise the renderers are dispatched. *)
Definition main (h : host) : list event * outcome :=
  if src_exists h then
    let '(trace, ok) := run_pandoc h OUT_MD OUT_PDF in
    if negb ok then (trace ++ [MdToPdf OUT_MD OUT_PDF], Returned)
    else (trace, Returned)
  else ([], SystemExit).

Definition is_fallback (e : event) : bool :=
  match e with MdToPdf _ _ => true | Subprocess _ => false end.

(** A host with pandoc and wkhtmltopdf but without LaTeX, on which
    wkhtmltopdf fails too: pandoc exits with 47, then with 1. *)
Definition example_host : host :=
  Host true
       (fun prog => if String.eqb prog "pandoc" then Some "/usr/bin/pandoc"
                    else if String.eqb prog "wkhtmltopdf"
                         then Some "/usr/bin/wkhtmltopdf"
                    else None)
       (fun args => if bool_decide ("--pdf-engine=wkhtmltopdf" ∈ args)
                    then 1 else 47).

End Dispatch.

(** ** Induction on tokens

    The induction principle of a token gives the property for its children. *)

Section NodeInduction.
Variable P : node -> Prop.
Hypothesis Hnode : forall t r tx ch a,
  (forall cs, ch = Some cs -> Forall P cs) -> P (Node t r tx ch a).

Fixpoint node_nested_ind (n : node) : P n :=
  match n with
  | Node t r tx ch a =>
      Hnode t r tx ch a
        (match ch as o return (forall cs, o = Some cs -> Forall P cs) with
         | Some cs' =>
             fun cs E =>
               match E in (_ = o') return
                     match o' with Some x => Forall P x | None => True end
               with
               | eq_refl =>
                   (fix all (l : list node) : Forall P l :=
                      match l with
                      | [] => @List.Forall_nil _ P
                      | c :: rest =>
                          @List.Forall_cons _ P c rest (node_nested_ind c) (all rest)
                      end) cs'
               end
         | None =>
             fun cs E =>
               match E in (_ = o') return
                     match o' with Some _ => Forall P cs | None => True end
               with
               | eq_refl => I
               end
         end)
  end.
End NodeInduction.

(** ** The registry the walker runs with *)

Definition H1_style : ParagraphStyle :=
  mkStyle "H1" (Some "Heading1")
          {[ "spaceBefore" := SInt 12; "spaceAfter" := SInt 6 ]}.
Definition H2_style : ParagraphStyle :=
  mkStyle "H2" (Some "Heading2")
          {[ "spaceBefore" := SInt 12; "spaceAfter" := SInt 6 ]}.
Definition H3_style : ParagraphStyle :=
  mkStyle "H3" (Some "Heading3")
          {[ "spaceBefore" := SInt 10; "spaceAfter" := SInt 4 ]}.
Definition Body_style : ParagraphStyle :=
  mkStyle "Body" (Some "BodyText") {[ "spaceAfter" := SInt 6 ]}.

(** The registry [_styles()] returns (empty if it raised). *)
Definition styles : gmap string ParagraphStyle :=
  match _styles with
  | Ok ss => ss
  | Raise _ => ∅
  end.


(** ** The vocabulary of the properties *)






(** The table with header A, B and one body row 1, 2. *)
Definition ab_table : node :=
  inline_parent "table" [table_row ["A"; "B"]; table_row ["1"; "2"]].

(** The list of the two items foo and bar. *)
Definition foo_bar_list (ord : option bool) : node :=
  list_node ord [inline_parent "list_item" [paragraph_node "foo"];
                 inline_parent "list_item" [paragraph_node "bar"]].

(** A block quote around a thematic break, as Mistune returns it for the
    Markdown text ["> ---"]. *)
Definition quoted_break : node :=
  inline_parent "block_quote" [thematic_break_node].

(** ** The aggregator: [fix_abs_links] *)

Module Links.

Definition rbracket : Z := 93.
Definition lparen : Z := 40.
Definition rparen : Z := 41.
Definition slash : Z := 47.

(** [[^)]+] at the head of [t], as far as it goes. *)
Fixpoint non_paren_run (t : list Z) : list Z :=
  match t with
  | c :: rest => if c =? rparen then [] else c :: non_paren_run rest
  | [] => []
  end.

(** [\]\((/[^)]+)\)] tried at the head of [s]. The greedy class takes
    every character up to the first closing parenthesis; giving characters
    back cannot help, since the character given back is not a closing
    parenthesis. The result is [m.group(1)]. *)
Definition match_abs_link (s : list Z) : option (list Z) :=
  match s with
  | a :: b :: c :: t =>
      if (a =? rbracket) && (b =? lparen) && (c =? slash) then
        let x := non_paren_run t in
        match x, drop (length x) t with
        | _ :: _, d :: _ => if d =? rparen then Some (slash :: x) else None
        | _, _ => None
        end
      else None
  | _ => None
  end.

(** ["](https://esphome.io" + m.group(1) + ")"] *)
Definition link_repl (group1 : list Z) : list Z :=
  Aggregator.str "](https://esphome.io" ++ group1 ++ [rparen].

(** [ABS_LINK_RE.sub], left to right; [pending] counts the characters of
    the current match still to be consumed. *)
Fixpoint links_scan (pending : nat) (s : list Z) : list Z :=
  match s with
  | [] => []
  | c :: rest =>
      match pending with
      | S p => links_scan p rest
      | O =>
          match match_abs_link s with
          | Some g => link_repl g ++ links_scan (length g + 2) rest
          | None => c :: links_scan 0 rest
          end
      end
  end.

Definition fix_abs_links (md : list Z) : list Z := links_scan 0 md.

End Links.

(** ** The aggregator: [parse_frontmatter] *)

Module FrontMatter.

(** ["---\n"] and ["\n---\n"] *)
Definition opening : list Z := [45; 45; 45; 10].
Definition closing : list Z := [10; 45; 45; 45; 10].

Fixpoint starts_with (p s : list Z) : bool :=
  match p, s with
  | [], _ => true
  | a :: p', b :: s' => (a =? b) && starts_with p' s'
  | _ :: _, [] => false
  end.

(** [.*?] followed by ["\n---\n"]: the lazy quantifier stops at the first
    place where the closing line follows. The result is the number of
    characters [.*?] takes. *)
Fixpoint find_closing (t : list Z) : option nat :=
  match t with
  | [] => None
  | _ :: rest =>
      if starts_with closing t then Some O
      else match find_closing rest with
           | Some j => Some (S j)
           | None => None
           end
  end.

(** [FRONT_RE.match(md)]: what [.*?] matched and [md[m.end():]]. *)
Definition front_match (md : list Z) : option (list Z * list Z) :=
  if starts_with opening md then
    let t := drop 4 md in
    match find_closing t with
    | Some j => Some (take j t, drop (j + 5) t)
    | None => None
    end
  else None.

(** [s.strip()] *)
Fixpoint lstrip (s : list Z) : list Z :=
  match s with
  | c :: rest => if Aggregator.is_space c then lstrip rest else s
  | [] => []
  end.
Definition strip (s : list Z) : list Z :=
  reverse (lstrip (reverse (lstrip s))).

Section Yaml.
(** The YAML loader is PyYAML's. [meta] is the type of its dicts and
    [load_dict fm_text] the dict [yaml.safe_load(fm_text)] returns; it is
    [None] when the loader raises or returns anything but a non-empty
    dict, the cases in which the code falls back to [{}]. *)
Variable meta : Type.
Variable empty_dict : meta.
Variable load_dict : list Z -> option meta.

Definition parse_frontmatter (md : list Z) : meta * list Z :=
  match front_match md with
  | None => (empty_dict, md)
  | Some (inner, body) =>
      let fm_text := strip ([10] ++ inner ++ [10]) in
      (default empty_dict (load_dict fm_text), body)
  end.
End Yaml.

End FrontMatter.

(** ** The aggregator: [collect] *)

Module Collect.

(** [a < b] on [str]: code point by code point. *)
Fixpoint str_ltb (a b : list Z) : bool :=
  match a, b with
  | _, [] => false
  | [], _ :: _ => true
  | x :: a', y :: b' => (x <? y) || ((x =? y) && str_ltb a' b')
  end.

(** [a < b] on the sort keys, which are tuples [(int, int, str)]: the
    first components that differ decide. *)
Definition key_ltb (a b : Z * Z * list Z) : bool :=
  let '(d1, w1, s1) := a in
  let '(d2, w2, s2) := b in
  if negb (d1 =? d2) then d1 <? d2
  else if negb (w1 =? w2) then w1 <? w2
  else str_ltb s1 s2.

Section Collect.
(** The file system, the paths and the YAML values are the host's and the
    libraries': [files] is what [SRC.rglob("*.md")] yields with the text
    read from each file, [dweights] the dict [dir_weights()] returns,
    [parent p] is [p.parent], [lower_str p] is [str(p).lower()],
    [int_weight m] is [m.get("weight")] when that is an instance of [int]
    and [get_title m] is [m.get("title", "")]. *)
Variables (path meta title : Type).
Variable parent : path -> path.
Variable lower_str : path -> list Z.
Variable empty_dict : meta.
Variable load_dict : list Z -> option meta.
Variable int_weight : meta -> option Z.
Variable get_title : meta -> title.
Variable dweights : path -> option Z.

Record item : Type := Item {
  item_path : path;
  dir_weight : Z;
  weight : Z;
  item_title : title;
  body : list Z
}.

Definition default_weight : Z := 10000000.

(** The dict appended for the file [p] with text [text]. *)
Definition make_item (file : path * list Z) : item :=
  let '(p, text) := file in
  let '(m, b) := FrontMatter.parse_frontmatter meta empty_dict load_dict text in
  Item p
       (default default_weight (dweights (parent p)))
       (default default_weight (int_weight m))
       (get_title m)
       b.

Definition sort_key (x : item) : Z * Z * list Z :=
  (dir_weight x, weight x, lower_str (item_path x)).

(** [list.sort(key=...)] is stable and compares keys with [<] only. [x]
    comes from before the items of [sorted], so it goes before the first
    of them whose key is not smaller than its own. *)
Fixpoint insert_sorted (x : item) (sorted : list item) : list item :=
  match sorted with
  | [] => [x]
  | y :: rest =>
      if key_ltb (sort_key y) (sort_key x) then y :: insert_sorted x rest
      else x :: y :: rest
  end.

Fixpoint sort_items (items : list item) : list item :=
  match items with
  | [] => []
  | x :: rest => insert_sorted x (sort_items rest)
  end.

Definition collect (files : list (path * list Z)) : list item :=
  sort_items (map make_item files).

(** [a] is at or before [b] in the order of the keys. *)
Definition key_le (a b : item) : Prop :=
  key_ltb (sort_key b) (sort_key a) = false.

End Collect.

End Collect.

(** ** More vocabulary *)



(** The keys whose absence the composer can meet. *)
Definition inline_keys : list string := ["raw"; "children"; "attrs"; "url"].


(** A link without attributes. *)
Definition bare_link : node := inline_parent "link" [text_node "x"].

(** * Properties *)

(** ** Strings *)

Lemma append_nil_r (s : string) : s +:+ "" = s.
Proof.
  induction s as [|a s IH]; [reflexivity|].
  change (String a s +:+ "") with (String a (s +:+ "")). by rewrite IH.
Qed.

Lemma append_assoc (s1 s2 s3 : string) :
  (s1 +:+ s2) +:+ s3 = s1 +:+ (s2 +:+ s3).
Proof.
  induction s1 as [|a s1 IH]; [reflexivity|].
  change (String a (s1 +:+ s2) +:+ s3 = String a (s1 +:+ (s2 +:+ s3))).
  change (String a ((s1 +:+ s2) +:+ s3) = String a (s1 +:+ (s2 +:+ s3))).
  by rewrite IH.
Qed.

(** ** The registry *)

Lemma styles_ok : _styles = Ok styles.
Proof. vm_compute. reflexivity. Qed.

Lemma styles_H1 : styles !! "H1" = Some H1_style.
Proof. vm_compute. reflexivity. Qed.
Lemma styles_H2 : styles !! "H2" = Some H2_style.
Proof. vm_compute. reflexivity. Qed.
Lemma styles_H3 : styles !! "H3" = Some H3_style.
Proof. vm_compute. reflexivity. Qed.

Lemma md_to_pdf_walk (ast : list node) : md_to_pdf ast = walk styles ast [].
Proof. unfold md_to_pdf. by rewrite styles_ok. Qed.


(** The dict lookup of [heading], case by case. *)
Lemma heading_name_cases (lvl : Z) :
  default "H3" (heading_names !! lvl)
  = if decide (lvl = 1) then "H1" else if decide (lvl = 2) then "H2" else "H3".
Proof.
  unfold heading_names.
  repeat case_decide; subst; simplify_map_eq; try reflexivity.
  destruct (decide (lvl = 3)); subst; by simplify_map_eq.
Qed.

(** ** The inline composer *)


(** [inline_node], with the loop over the children named. *)
Lemma inline_node_unfold (n : node) :
  inline_node n =
  let t := type n in
  if String.eqb t "text" then
    r <-[ "raw" ] raw n ;; Ok r
  else if String.eqb t "linebreak" then Ok "<br/>"
  else if String.eqb t "softbreak" then Ok " "
  else if String.eqb t "emphasis" then
    cs <-[ "children" ] children n ;;
    s <- inline cs ;;
    Ok ("<i>" +:+ s +:+ "</i>")
  else if String.eqb t "strong" then
    cs <-[ "children" ] children n ;;
    s <- inline cs ;;
    Ok ("<b>" +:+ s +:+ "</b>")
  else if String.eqb t "link" then
    cs <-[ "children" ] children n ;;
    label <- inline cs ;;
    a <-[ "attrs" ] attrs n ;;
    href <-[ "url" ] url a ;;
    Ok (if String.eqb href "" then label else label +:+ " (" +:+ href +:+ ")")
  else if String.eqb t "codespan" then
    r <-[ "raw" ] raw n ;;
    Ok ("<font face='Courier'>" +:+ r +:+ "</font>")
  else if String.eqb t "image" then
    a <-[ "attrs" ] attrs n ;;
    src <-[ "url" ] url a ;;
    Ok ("[Image: " +:+ default "" (alt a) +:+ "] (" +:+ src +:+ ")")
  else
    match children n with
    | Some cs => inline cs
    | None => Ok ""
    end.
Proof. destruct n. reflexivity. Qed.

Lemma wf_inline_unfold (n : node) :
  wf_inline n =
  let t := type n in
  let wf_children :=
    match children n with Some cs => wf_inlines cs | None => false end in
  let has_url :=
    match attrs n with Some a => bool_decide (is_Some (url a)) | None => false end in
  if String.eqb t "text" then bool_decide (is_Some (raw n))
  else if String.eqb t "linebreak" then true
  else if String.eqb t "softbreak" then true
  else if String.eqb t "emphasis" then wf_children
  else if String.eqb t "strong" then wf_children
  else if String.eqb t "link" then wf_children && has_url
  else if String.eqb t "codespan" then bool_decide (is_Some (raw n))
  else if String.eqb t "image" then has_url
  else match children n with Some cs => wf_inlines cs | None => true end.
Proof. destruct n. reflexivity. Qed.

Lemma inline_from_acc (cs : list node) (out : string) :
  inline_from out cs = (s <- inline cs ;; Ok (out +:+ s)).
Proof.
  unfold inline. revert out.
  induction cs as [|c rest IH]; intros out; simpl.
  - by rewrite append_nil_r.
  - destruct (inline_node c) as [s|e]; [|reflexivity].
    rewrite (IH (out +:+ s)), (IH ("" +:+ s)).
    destruct (inline_from "" rest) as [r|e]; [|reflexivity].
    by rewrite append_assoc.
Qed.

Lemma inline_nil : inline [] = Ok "".
Proof. reflexivity. Qed.

Lemma inline_cons (c : node) (rest : list node) :
  inline (c :: rest)
  = (a <- inline_node c ;; b <- inline rest ;; Ok (a +:+ b)).
Proof.
  unfold inline at 1. simpl.
  destruct (inline_node c) as [a|e]; [|reflexivity].
  by rewrite inline_from_acc.
Qed.

Lemma inline_singleton (c : node) : inline [c] = inline_node c.
Proof.
  rewrite inline_cons, inline_nil.
  destruct (inline_node c) as [a|e]; [|reflexivity].
  by rewrite append_nil_r.
Qed.

Lemma inline_app (cs1 cs2 : list node) :
  inline (cs1 ++ cs2)
  = (a <- inline cs1 ;; b <- inline cs2 ;; Ok (a +:+ b)).
Proof.
  induction cs1 as [|c cs1 IH]; simpl.
  - by destruct (inline cs2).
  - rewrite !inline_cons, IH.
    destruct (inline_node c) as [a|e]; [|reflexivity].
    destruct (inline cs1) as [b|e]; [|reflexivity].
    destruct (inline cs2) as [d|e]; [|reflexivity].
    by rewrite append_assoc.
Qed.

(** The composer returns on well-formed tokens. *)
Lemma inline_node_total (n : node) :
  wf_inline n = true -> exists s, inline_node n = Ok s.
Proof.
  induction n as [t r tx ch a IH] using node_nested_ind.
  assert (Hch : forall cs, ch = Some cs -> wf_inlines cs = true ->
                           exists s, inline cs = Ok s).
  { intros cs E. specialize (IH cs E). clear E.
    induction IH as [|c rest Hc _ IHrest]; intros Hwf.
    - by exists "".
    - apply andb_prop in Hwf as [Hwc Hwr].
      destruct (Hc Hwc) as [s1 E1], (IHrest Hwr) as [s2 E2].
      exists (s1 +:+ s2). by rewrite inline_cons, E1, E2. }
  rewrite wf_inline_unfold, inline_node_unfold. cbn [type raw children attrs].
  repeat match goal with
         | |- context [String.eqb t ?k] => destruct (String.eqb t k)
         end;
    intros Hwf;
    repeat match goal with
           | H : _ && _ = true |- _ => apply andb_prop in H as [? ?]
           | H : bool_decide (is_Some ?o) = true |- _ =>
               apply bool_decide_eq_true in H as [? ->]
           | H : match ?o with Some _ => _ | None => _ end = true |- _ =>
               destruct o eqn:?; [|try discriminate H]
           | H : wf_inlines ?cs = true |- context [inline ?cs] =>
               destruct (Hch cs eq_refl H) as [? ->]; clear H
           end;
    try solve [eexists; reflexivity].
Qed.

Lemma inline_total (cs : list node) :
  wf_inlines cs = true -> exists s, inline cs = Ok s.
Proof.
  induction cs as [|c rest IH]; intros Hwf.
  - by exists "".
  - apply andb_prop in Hwf as [Hc Hrest].
    destruct (inline_node_total c Hc) as [s1 E1], (IH Hrest) as [s2 E2].
    exists (s1 +:+ s2). by rewrite inline_cons, E1, E2.
Qed.



(** ** The branches of the walker *)

Section Branches.
Variable ss : gmap string ParagraphStyle.
Variables (n : node) (flow : list flowable).








End Branches.

Lemma walk_cons (ss : gmap string ParagraphStyle) (n : node)
    (rest : list node) (flow : list flowable) :
  walk ss (n :: rest) flow = (flow' <- block ss n flow ;; walk ss rest flow').
Proof. reflexivity. Qed.

Lemma walk_app (ss : gmap string ParagraphStyle) (ast1 ast2 : list node)
    (flow : list flowable) :
  walk ss (ast1 ++ ast2) flow
  = (flow' <- walk ss ast1 flow ;; walk ss ast2 flow').
Proof.
  revert flow. induction ast1 as [|n ast1 IH]; intros flow; simpl; [done|].
  destruct (block ss n flow); [apply IH|done].
Qed.

Lemma heading_styles (txt : string) (lvl : Z) (flow : list flowable) :
  heading styles txt lvl flow
  = Ok (flow ++ [Paragraph txt (if decide (lvl = 1) then H1_style
                                 else if decide (lvl = 2) then H2_style
                                 else H3_style)]).
Proof.
  unfold heading, ss_getitem. cbv zeta. rewrite heading_name_cases.
  repeat case_decide; by rewrite ?styles_H1, ?styles_H2, ?styles_H3.
Qed.

(** ** Links *)

(** C5. A link composes to its label, followed by [" (" + URL + ")"] when
    the URL is not empty, and to the label alone, with nothing after it,
    when the URL is empty. *)
Theorem link_composition (n : node) (cs : list node) (a : attrs_dict)
    (href : string)
    (Hkind : type n = "link")
    (Hchildren : children n = Some cs)
    (Hwf : wf_inlines cs = true)
    (Hattrs : attrs n = Some a)
    (Hurl : url a = Some href) :
  exists label,
    inline cs = Ok label /\
    (href <> "" -> inline [n] = Ok (label +:+ " (" +:+ href +:+ ")")) /\
    (href = "" -> inline [n] = Ok label).
Proof.
  destruct (inline_total cs Hwf) as [label Hlabel].
  exists label. split; [exact Hlabel|].
  rewrite inline_singleton, inline_node_unfold, Hkind, Hchildren, Hlabel,
    Hattrs, Hurl.
  cbv zeta. change (String.eqb "link" "text") with false. cbn.
  split; intros H.
  - by apply String.eqb_neq in H as ->.
  - by subst href.
Qed.

Lemma link_composition_witness :
  exists label,
    inline [text_node "ESPHome"] = Ok label /\
    ("https://esphome.io/" <> "" ->
     inline [link_node [text_node "ESPHome"] "https://esphome.io/"]
     = Ok (label +:+ " (" +:+ "https://esphome.io/" +:+ ")")) /\
    ("https://esphome.io/" = "" ->
     inline [link_node [text_node "ESPHome"] "https://esphome.io/"] = Ok label).
Proof.
  apply (link_composition
           (link_node [text_node "ESPHome"] "https://esphome.io/")
           [text_node "ESPHome"]
           (Attrs (Some "https://esphome.io/") None None None)
           "https://esphome.io/"); reflexivity.
Defined.

Example link_with_url :
  inline [link_node [text_node "ESPHome"] "https://esphome.io/"]
  = Ok "ESPHome (https://esphome.io/)".
Proof. reflexivity. Qed.

Example link_without_url :
  inline [link_node [text_node "ESPHome"] ""] = Ok "ESPHome".
Proof. reflexivity. Qed.

(** ** Unknown kinds *)



Example unknown_inline_without_children :
  inline [Node "blank_line" None None None None] = Ok "".
Proof. reflexivity. Qed.

Example unknown_block_without_children :
  md_to_pdf [Node "blank_line" None None None None; paragraph_node "p"]
  = Ok [Paragraph "p" Body_style].
Proof. rewrite md_to_pdf_walk. vm_compute. reflexivity. Qed.

(** ** Headings *)


Example heading_level_0 :
  heading styles "t" 0 [] = Ok [Paragraph "t" H3_style].
Proof. by rewrite heading_styles. Qed.

Example heading_level_negative :
  heading styles "t" (-4) [] = Ok [Paragraph "t" H3_style].
Proof. by rewrite heading_styles. Qed.

Example heading_level_7 :
  heading styles "t" 7 [] = Ok [Paragraph "t" H3_style].
Proof. by rewrite heading_styles. Qed.



Example heading_levels_4_5_6 :
  md_to_pdf [heading_node 4 "a"; heading_node 5 "b"; heading_node 6 "c"]
  = Ok [Paragraph "a" H3_style; Paragraph "b" H3_style; Paragraph "c" H3_style].
Proof. rewrite md_to_pdf_walk. vm_compute. reflexivity. Qed.

(** ** Comprehensions *)





(** ** Tables *)




Example ab_table_text :
  md_to_pdf [ab_table]
  = Ok [Paragraph ("A | B" +:+ nl +:+ repeat_str em_dash 20 +:+ nl +:+ "1 | 2")
                  Body_style].
Proof. rewrite md_to_pdf_walk. vm_compute. reflexivity. Qed.


(** ** Lists *)






Example foo_bar_ordered :
  md_to_pdf [foo_bar_list (Some true)]
  = Ok [ListFlowable [ListItem (Paragraph "foo" Body_style);
                      ListItem (Paragraph "bar" Body_style)] "1" "1"].
Proof. rewrite md_to_pdf_walk. vm_compute. reflexivity. Qed.

Example foo_bar_unordered :
  md_to_pdf [foo_bar_list (Some false)]
  = Ok [ListFlowable [ListItem (Paragraph "foo" Body_style);
                      ListItem (Paragraph "bar" Body_style)] "bullet" "1"].
Proof. rewrite md_to_pdf_walk. vm_compute. reflexivity. Qed.

(** An item joins its paragraphs and bare texts by one space and drops a
    nested list. *)
Example item_with_nested_list :
  item_of (inline_parent "list_item"
             [paragraph_node "a";
              foo_bar_list None;
              Node "text" None (Some "b") None None])
  = Ok "a b".
Proof. reflexivity. Qed.

(** ** Block quotes *)


Example quote_of_three_paragraphs :
  md_to_pdf [inline_parent "block_quote"
               [paragraph_node "one"; paragraph_node "two";
                paragraph_node "three"]]
  = Ok [Paragraph "&ldquo;one&rdquo;" Body_style].
Proof. rewrite md_to_pdf_walk. vm_compute. reflexivity. Qed.

Example quote_without_children :
  md_to_pdf [inline_parent "block_quote" []]
  = Ok [Paragraph "&ldquo;&rdquo;" Body_style]
  /\ md_to_pdf [Node "block_quote" None None None None]
     = Ok [Paragraph "&ldquo;&rdquo;" Body_style].
Proof. rewrite !md_to_pdf_walk. split; vm_compute; reflexivity. Qed.

(** C4, where the code departs from it. The first child of the block
    quote of ["> ---"] is a thematic break, a token without a
    ["children"] key: the walker reads that key and raises, and no
    paragraph is added. *)
Theorem block_quote_of_break_raises :
  type quoted_break = "block_quote" /\
  children quoted_break = Some [thematic_break_node] /\
  children thematic_break_node = None /\
  md_to_pdf [quoted_break] = Raise (KeyError "children").
Proof. rewrite md_to_pdf_walk. repeat split; vm_compute; reflexivity. Qed.

(** ** The walk as a whole *)




Example heading_paragraph_code :
  exists code_style,
    md_to_pdf [heading_node 1 "h"; paragraph_node "p"; code_node "c"]
    = Ok [Paragraph "h" H1_style; Paragraph "p" Body_style;
          Preformatted "c" code_style].
Proof. eexists. rewrite md_to_pdf_walk. vm_compute. reflexivity. Qed.

(** C7, where the code departs from it. Every token of this tree is of a
    recognized kind, yet the walk raises at the block quote and no
    flowable at all is produced. *)
Theorem walk_raises_on_quoted_break :
  forallb (fun n => recognized (type n))
          [paragraph_node "p"; quoted_break; thematic_break_node] = true /\
  md_to_pdf [paragraph_node "p"; quoted_break; thematic_break_node]
  = Raise (KeyError "children").
Proof. rewrite md_to_pdf_walk. split; vm_compute; reflexivity. Qed.

(** ** The renderer dispatch *)

Module DispatchProps.
Import Dispatch.

Ltac in_trace := solve [repeat constructor].

(** The five runs of [main] on a host that has the source tree. *)
Lemma main_cases (h : host) :
  src_exists h = true ->
  let args := pandoc_args (default "" (which h "pandoc")) OUT_MD OUT_PDF in
  let args2 := args ++ ["--pdf-engine=wkhtmltopdf"] in
  let fallback := MdToPdf OUT_MD OUT_PDF in
  main h =
  if negb (found (which h "pandoc")) then ([fallback], Returned)
  else if returncode h args =? 0 then ([Subprocess args], Returned)
  else if negb (found (which h "wkhtmltopdf"))
       then ([Subprocess args; fallback], Returned)
  else if returncode h args2 =? 0
       then ([Subprocess args; Subprocess args2], Returned)
  else ([Subprocess args; Subprocess args2; fallback], Returned).
Proof.
  intros Hsrc. unfold main, run_pandoc. rewrite Hsrc. cbv zeta.
  destruct (found (which h "pandoc")); simpl; [|reflexivity].
  destruct (returncode h _ =? 0); simpl; [reflexivity|].
  destruct (found (which h "wkhtmltopdf")); simpl; [|reflexivity].
  destruct (returncode h _ =? 0); reflexivity.
Qed.

(** C8. On a run that reaches the renderers: when pandoc is on the host
    the first invocation is pandoc with its default engine; the
    invocation with the alternate engine is made exactly when the first
    one fails and wkhtmltopdf is on the host, and then it comes second;
    [run_pandoc] returns [True] exactly when an invocation it made exited
    with 0; and the fallback renderer is invoked once when pandoc is absent
    or every invocation made failed, and not at all otherwise. *)
Theorem dispatch_order (h : host) (Hsrc : src_exists h = true) :
  let args := pandoc_args (default "" (which h "pandoc")) OUT_MD OUT_PDF in
  let args2 := args ++ ["--pdf-engine=wkhtmltopdf"] in
  let trace := (main h).1 in
  let ok := (run_pandoc h OUT_MD OUT_PDF).2 in
  (found (which h "pandoc") = true ->
   exists rest, trace = Subprocess args :: rest) /\
  (found (which h "pandoc") = false -> trace = [MdToPdf OUT_MD OUT_PDF]) /\
  (Subprocess args2 ∈ trace <->
   found (which h "pandoc") = true /\ returncode h args <> 0 /\
   found (which h "wkhtmltopdf") = true) /\
  (Subprocess args2 ∈ trace ->
   exists rest, trace = Subprocess args :: Subprocess args2 :: rest) /\
  (ok = true <->
   exists a, Subprocess a ∈ trace /\ returncode h a = 0) /\
  (length (List.filter is_fallback trace) = 1%nat <->
   found (which h "pandoc") = false \/
   forall a, Subprocess a ∈ trace -> returncode h a <> 0) /\
  (length (List.filter is_fallback trace) <= 1)%nat.
Proof.
  cbv zeta. rewrite (main_cases h Hsrc). cbv zeta. unfold run_pandoc.
  set (args := pandoc_args _ _ _).
  assert (Hne : Subprocess (args ++ ["--pdf-engine=wkhtmltopdf"])
                <> Subprocess args).
  { unfold args, pandoc_args. simpl. congruence. }
  set (args2 := args ++ ["--pdf-engine=wkhtmltopdf"]) in *.
  destruct (found (which h "pandoc")) eqn:Hp; simpl;
    [destruct (returncode h args =? 0) eqn:H1; simpl;
     [|destruct (found (which h "wkhtmltopdf")) eqn:Hw; simpl;
       [destruct (returncode h args2 =? 0) eqn:H2; simpl|]]|];
    rewrite ?Z.eqb_eq, ?Z.eqb_neq in *;
    repeat split; intros.
  all: try solve [done | simpl; lia | eauto].
  all: try (right; intros).
  all: repeat match goal with
              | H : _ /\ _ |- _ => destruct H
              | H : ex _ |- _ => destruct H
              | H : true = false \/ _ |- _ => destruct H as [H|H]; [discriminate H|]
              | H : _ ∈ _ :: _ |- _ => apply elem_of_cons in H as [H|H]
              | H : _ ∈ [] |- _ => solve [inversion H]
              | H : Subprocess _ = Subprocess _ |- _ =>
                  first [solve [destruct (Hne H)] | injection H as H; subst]
              | H : Subprocess _ = MdToPdf _ _ |- _ => discriminate H
              end.
  all: try solve [done | simpl; lia | eauto | in_trace
                  | eexists; split; [in_trace|eassumption]].
  all: match goal with
       | H : forall a, Subprocess a ∈ _ -> returncode _ a <> 0,
         E : returncode _ ?b = 0 |- _ =>
           exfalso; apply (H b); [in_trace|exact E]
       end.
Qed.

Lemma dispatch_order_witness :
  let h := example_host in
  let args := pandoc_args (default "" (which h "pandoc")) OUT_MD OUT_PDF in
  let args2 := args ++ ["--pdf-engine=wkhtmltopdf"] in
  let trace := (main h).1 in
  let ok := (run_pandoc h OUT_MD OUT_PDF).2 in
  (found (which h "pandoc") = true ->
   exists rest, trace = Subprocess args :: rest) /\
  (found (which h "pandoc") = false -> trace = [MdToPdf OUT_MD OUT_PDF]) /\
  (Subprocess args2 ∈ trace <->
   found (which h "pandoc") = true /\ returncode h args <> 0 /\
   found (which h "wkhtmltopdf") = true) /\
  (Subprocess args2 ∈ trace ->
   exists rest, trace = Subprocess args :: Subprocess args2 :: rest) /\
  (ok = true <->
   exists a, Subprocess a ∈ trace /\ returncode h a = 0) /\
  (length (List.filter is_fallback trace) = 1%nat <->
   found (which h "pandoc") = false \/
   forall a, Subprocess a ∈ trace -> returncode h a <> 0) /\
  (length (List.filter is_fallback trace) <= 1)%nat.
Proof. apply (dispatch_order example_host). reflexivity. Defined.

Example example_host_trace :
  main example_host
  = ([Subprocess ["/usr/bin/pandoc"; OUT_MD; "-o"; OUT_PDF; "--from";
                  "markdown+smart"; "--toc"];
      Subprocess ["/usr/bin/pandoc"; OUT_MD; "-o"; OUT_PDF; "--from";
                  "markdown+smart"; "--toc"; "--pdf-engine=wkhtmltopdf"];
      MdToPdf OUT_MD OUT_PDF], Returned).
Proof. reflexivity. Qed.

End DispatchProps.

(** ** Heading demotion *)

Module AggregatorProps.
Import Aggregator.

Lemma is_space_not_hash (w : Z) : is_space w = true -> w <> hash.
Proof. intros H ->. vm_compute in H. discriminate H. Qed.

Lemma count_hashes_replicate (k : nat) (w : Z) (rest : list Z) :
  w <> hash -> count_hashes (replicate k hash ++ w :: rest) = k.
Proof.
  intros Hw. induction k as [|k IH]; simpl.
  - destruct (Z.eqb_spec w hash); [done|reflexivity].
  - by rewrite IH.
Qed.

Lemma count_hashes_split (s : list Z) :
  s = replicate (count_hashes s) hash ++ drop (count_hashes s) s.
Proof.
  induction s as [|c r IH]; simpl; [done|].
  destruct (Z.eqb_spec c hash) as [->|]; simpl; [by f_equal|done].
Qed.

Lemma hashes_then_space_spec (k : nat) (s : list Z) :
  hashes_then_space k s = true <->
  count_hashes s = k /\
  match drop k s with w :: _ => is_space w = true | [] => False end.
Proof.
  revert s. induction k as [|k IH]; intros [|c r]; simpl.
  - split; [done|by intros [_ []]].
  - split.
    + intros H. split; [|done].
      destruct (Z.eqb_spec c hash) as [->|]; [|done].
      vm_compute in H. discriminate H.
    + by intros [_ H].
  - split; [done|by intros [? _]].
  - destruct (Z.eqb_spec c hash) as [->|]; simpl.
    + rewrite IH. split; intros [? ?]; split; (done || congruence).
    + split; [done|by intros [? _]].
Qed.

(** Giving hashes back one at a time finds the marker of the line: the
    run of hashes must be followed by the whitespace character. *)
Lemma match_marker_spec (K : nat) (s : list Z) :
  match_marker K s =
  if bool_decide (1 <= count_hashes s <= K)%nat then
    match drop (count_hashes s) s with
    | w :: _ => if is_space w then Some (count_hashes s) else None
    | [] => None
    end
  else None.
Proof.
  induction K as [|K IH].
  - simpl. case_bool_decide; [lia|done].
  - cbn [match_marker]. destruct (hashes_then_space (S K) s) eqn:E.
    + apply hashes_then_space_spec in E as [Ec Ew]. rewrite Ec.
      rewrite bool_decide_eq_true_2 by lia.
      destruct (drop (S K) s); [done|]. by rewrite Ew.
    + rewrite IH.
      destruct (decide (count_hashes s = S K)) as [Ec|Nc].
      * rewrite (bool_decide_eq_false_2 (1 <= _ <= K)%nat) by lia.
        rewrite bool_decide_eq_true_2 by lia. rewrite Ec.
        destruct (drop (S K) s) as [|w t] eqn:Ed; [done|].
        destruct (is_space w) eqn:Ew; [|done].
        assert (hashes_then_space (S K) s = true) as E'; [|congruence].
        apply hashes_then_space_spec. by rewrite Ed.
      * repeat case_bool_decide; (done || lia).
Qed.

Lemma match_marker_marker (s : list Z) : match_marker 6 s = marker s.
Proof. by rewrite match_marker_spec. Qed.

(** A marked line, spelled out. *)
Lemma marker_Some (line : list Z) (k : nat) :
  marker line = Some k <->
  (1 <= k <= 6)%nat /\
  exists w rest, is_space w = true /\ line = replicate k hash ++ w :: rest.
Proof.
  unfold marker. split.
  - case_bool_decide as Hk; [|done].
    destruct (drop (count_hashes line) line) as [|w rest] eqn:Ed; [done|].
    destruct (is_space w) eqn:Ew; [|done]. intros [= <-].
    split; [done|]. exists w, rest. split; [done|].
    rewrite <- Ed. apply count_hashes_split.
  - intros (Hk & w & rest & Hw & ->).
    rewrite count_hashes_replicate by by apply is_space_not_hash.
    rewrite bool_decide_eq_true_2 by done.
    rewrite drop_app_length' by by rewrite length_replicate.
    by rewrite Hw.
Qed.

(** *** The scan, step by step *)

Lemma scan_bol (delta : Z) (c : Z) (r : list Z) :
  sub_scan delta true 0 (c :: r)
  = match marker (c :: r) with
    | Some k => repl delta k ++ sub_scan delta (c =? newline) k r
    | None => c :: sub_scan delta (c =? newline) 0 r
    end.
Proof. rewrite <- match_marker_marker. reflexivity. Qed.

Lemma scan_mid (delta : Z) (c : Z) (r : list Z) :
  sub_scan delta false 0 (c :: r) = c :: sub_scan delta (c =? newline) 0 r.
Proof. reflexivity. Qed.

(** The characters of a match are consumed up to its whitespace. *)
Lemma scan_skip (delta : Z) (b : bool) (u : list Z) (w : Z) (rest : list Z) :
  sub_scan delta b (S (length u)) (u ++ w :: rest)
  = sub_scan delta (w =? newline) 0 rest.
Proof.
  revert b. induction u as [|c u IH]; intros b; simpl; [reflexivity|apply IH].
Qed.

(** Inside a line the characters are copied. *)
Lemma scan_copy (delta : Z) (u rest : list Z) :
  newline ∉ u ->
  sub_scan delta false 0 (u ++ rest) = u ++ sub_scan delta false 0 rest.
Proof.
  induction u as [|c u IH]; intros Hu; [reflexivity|].
  apply not_elem_of_cons in Hu as [Hc Hu].
  rewrite <- !app_comm_cons, scan_mid.
  destruct (Z.eqb_spec c newline); [done|]. by rewrite IH.
Qed.

Lemma scan_to_line_end (delta : Z) (tail rest : list Z) :
  line_end tail rest ->
  sub_scan delta false 0 (tail ++ rest) = tail ++ sub_scan delta true 0 rest.
Proof.
  intros [u Hu|u rest' Hu].
  - by rewrite scan_copy.
  - rewrite <- !app_assoc, scan_copy by done. reflexivity.
Qed.

Lemma line_end_inv (pre : list Z) (w : Z) (tail rest : list Z) :
  line_end (pre ++ w :: tail) rest ->
  (w = newline /\ tail = []) \/ (w <> newline /\ line_end tail rest).
Proof.
  intros H. inversion H as [u Hu Eu Er|u rest' Hu Eu Er]; subst.
  - right. rewrite elem_of_app, elem_of_cons in Hu.
    split; [naive_solver|]. constructor. naive_solver.
  - destruct tail as [|x tail _] using rev_ind.
    + left. apply app_inj_tail in Eu as [_ ->]. done.
    + right.
      rewrite app_comm_cons, app_assoc in Eu.
      apply app_inj_tail in Eu as [-> <-].
      rewrite elem_of_app, elem_of_cons in Hu.
      split; [naive_solver|]. constructor. naive_solver.
Qed.

(** *** Lines *)

Lemma count_hashes_line (u rest : list Z) :
  count_hashes ((u ++ [newline]) ++ rest) = count_hashes (u ++ [newline])
  /\ (count_hashes (u ++ [newline]) <= length u)%nat.
Proof.
  induction u as [|c u [IH1 IH2]]; simpl.
  - split; [reflexivity|lia].
  - destruct (Z.eqb_spec c hash); [|split; [reflexivity|lia]].
    split; [by rewrite IH1|lia].
Qed.

Lemma marker_line (l rest : list Z) :
  line_end l rest -> marker (l ++ rest) = marker l.
Proof.
  intros [u Hu|u rest' Hu]; [by rewrite app_nil_r|].
  unfold marker.
  destruct (count_hashes_line u rest') as [-> Hle].
  set (k := count_hashes (u ++ [newline])) in *.
  case_bool_decide; [|reflexivity].
  rewrite drop_app_le by (rewrite length_app; simpl; lia).
  destruct (drop k (u ++ [newline])) as [|w t] eqn:Ed; [|reflexivity].
  apply (f_equal length) in Ed. rewrite length_drop, length_app in Ed.
  simpl in Ed. lia.
Qed.

Lemma lines_line (l rest : list Z) :
  line_end l rest -> l <> [] -> lines (l ++ rest) = l :: lines rest.
Proof.
  intros [u Hu|u rest' Hu] Hne.
  - rewrite app_nil_r. simpl. induction u as [|c u IH]; [done|].
    apply not_elem_of_cons in Hu as [Hc Hu]. simpl.
    destruct (Z.eqb_spec c newline); [done|].
    destruct u as [|c' u]; [reflexivity|]. by rewrite IH.
  - clear Hne. induction u as [|c u IH]; simpl.
    + reflexivity.
    + apply not_elem_of_cons in Hu as [Hc Hu].
      destruct (Z.eqb_spec c newline); [done|]. by rewrite IH.
Qed.

Lemma first_line (s : list Z) :
  s <> [] -> exists l rest, s = l ++ rest /\ line_end l rest /\ l <> [].
Proof.
  induction s as [|c s IH]; [done|]. intros _.
  destruct (decide (c = newline)) as [->|Hc].
  - exists [newline], s. split; [reflexivity|]. split; [|done].
    apply (line_end_newline [] s). apply not_elem_of_nil.
  - destruct s as [|c' s].
    + exists [c], []. split; [reflexivity|]. split; [|done].
      constructor. by apply not_elem_of_cons; split; [|apply not_elem_of_nil].
    + destruct IH as (l & rest & E & Hl & _); [done|].
      exists (c :: l), rest. split; [by rewrite E|]. split; [|done].
      destruct Hl as [u Hu|u rest' Hu].
      * constructor. by apply not_elem_of_cons.
      * apply (line_end_newline (c :: u) rest'). by apply not_elem_of_cons.
Qed.

(** The scan of a line that starts where [^] matches. *)
Lemma scan_line (delta : Z) (l rest : list Z) :
  line_end l rest -> l <> [] ->
  sub_scan delta true 0 (l ++ rest)
  = demote_line delta l ++ sub_scan delta true 0 rest.
Proof.
  intros Hl Hne. destruct l as [|c r]; [done|]. clear Hne.
  rewrite <- app_comm_cons, scan_bol.
  rewrite (app_comm_cons r rest c), (marker_line _ _ Hl).
  unfold demote_line. destruct (marker (c :: r)) as [k|] eqn:Em.
  - apply marker_Some in Em as (Hk & w & tail & Hw & E).
    destruct k as [|k]; [lia|]. simpl in E. injection E as -> ->.
    rewrite <- app_assoc, <- app_comm_cons.
    rewrite <- (length_replicate k hash) at 2. rewrite scan_skip.
    rewrite <- app_assoc. f_equal.
    change (drop (S (S k)) (hash :: replicate k hash ++ w :: tail))
      with (drop (S k) (replicate k hash ++ w :: tail)).
    assert (drop (S k) (replicate k hash ++ w :: tail) = tail) as ->.
    { rewrite cons_middle, app_assoc. apply drop_app_length'.
      rewrite length_app, length_replicate. simpl. lia. }
    apply (line_end_inv (hash :: replicate k hash)) in Hl as [[-> ->]|[Hn Ht]].
    + reflexivity.
    + destruct (Z.eqb_spec w newline); [done|].
      by apply scan_to_line_end.
  - simpl. f_equal.
    apply (line_end_inv []) in Hl as [[-> ->]|[Hn Ht]].
    + reflexivity.
    + destruct (Z.eqb_spec c newline); [done|].
      by apply scan_to_line_end.
Qed.

(** The scan of the whole text is the line-by-line demotion. *)
Lemma demote_headings_lines (md : list Z) (delta : Z) :
  demote_headings md delta = concat (map (demote_line delta) (lines md)).
Proof.
  unfold demote_headings.
  remember (length md) as len eqn:Hlen.
  revert md Hlen. induction len as [len IH] using lt_wf_ind. intros md ->.
  destruct md as [|c md]; [reflexivity|].
  destruct (first_line (c :: md)) as (l & rest & E & Hl & Hne); [done|].
  rewrite E, scan_line, lines_line by done. simpl. f_equal.
  apply (IH (length rest)); [|reflexivity].
  rewrite E, length_app. destruct l; [done|simpl; lia].
Qed.

Lemma demote_line_marked (delta : Z) (k : nat) (w : Z) (rest : list Z) :
  (1 <= k <= 6)%nat -> is_space w = true ->
  demote_line delta (replicate k hash ++ w :: rest)
  = hashes (Z.min 6 (Z.of_nat k + delta)) ++ space :: rest.
Proof.
  intros Hk Hw. unfold demote_line.
  assert (marker (replicate k hash ++ w :: rest) = Some k) as ->.
  { apply marker_Some. split; [done|]. by exists w, rest. }
  unfold repl. rewrite <- app_assoc. f_equal. simpl. f_equal.
  rewrite cons_middle, app_assoc. apply drop_app_length'.
  rewrite length_app, length_replicate. simpl. lia.
Qed.

(** Where the whitespace after the hashes is a plain space, the code does
    what the specification says. *)
Lemma demote_line_as_claimed (delta : Z) (k : nat) (rest : list Z) :
  (1 <= k <= 6)%nat ->
  demote_line delta (replicate k hash ++ space :: rest)
  = claimed_demote_line delta (replicate k hash ++ space :: rest).
Proof.
  intros Hk. rewrite demote_line_marked by done. unfold claimed_demote_line.
  assert (marker (replicate k hash ++ space :: rest) = Some k) as ->.
  { apply marker_Some. split; [done|]. by exists space, rest. }
  f_equal. symmetry. apply drop_app_length'. by rewrite length_replicate.
Qed.


Example demote_two_headings :
  demote_headings (str ("# a" +:+ nl +:+ "text" +:+ nl +:+ "### b")) 1
  = str ("## a" +:+ nl +:+ "text" +:+ nl +:+ "#### b").
Proof. reflexivity. Qed.

Example demote_level_6 :
  demote_headings (str "###### deep") 1 = str "###### deep".
Proof. reflexivity. Qed.

Example demote_seven_hashes :
  demote_headings (str "####### x") 1 = str "####### x".
Proof. reflexivity. Qed.

Example demote_tab :
  demote_headings (35 :: 9 :: str "foo") 1 = str "## foo".
Proof. reflexivity. Qed.


End AggregatorProps.

(** * Further properties of the renderer *)

(** X1. The composer works left to right: the text of a sequence of
    tokens is the text of its first part followed by the text of its
    second part, and an exception of the first part comes before one of
    the second. *)
Theorem inline_concatenates (cs1 cs2 : list node) :
  inline (cs1 ++ cs2)
  = (a <- inline cs1 ;; b <- inline cs2 ;; Ok (a +:+ b)).
Proof.
  induction cs1 as [|c cs1 IH]; simpl.
  - by destruct (inline cs2).
  - rewrite !inline_cons, IH.
    destruct (inline_node c) as [a|e]; [|reflexivity].
    destruct (inline cs1) as [b|e]; [|reflexivity].
    destruct (inline cs2) as [d|e]; [|reflexivity].
    by rewrite append_assoc.
Qed.

(** X2. On tokens that carry the keys of their kind, at every depth, the
    composer returns a text: it raises nothing. *)
Theorem inline_returns_on_well_formed (cs : list node)
    (Hwf : wf_inlines cs = true) :
  exists s, inline cs = Ok s.
Proof.
  induction cs as [|c rest IH].
  - by exists "".
  - apply andb_prop in Hwf as [Hc Hrest].
    destruct (inline_node_total c Hc) as [s1 E1], (IH Hrest) as [s2 E2].
    exists (s1 +:+ s2). by rewrite inline_cons, E1, E2.
Qed.

Lemma inline_returns_on_well_formed_witness :
  exists s,
    inline [inline_parent "strong"
              [inline_parent "emphasis" [text_node "x"]];
            Node "softbreak" None None None None;
            link_node [text_node "docs"] "https://esphome.io/"]
    = Ok s.
Proof. apply inline_returns_on_well_formed. reflexivity. Defined.

Example nested_emphasis :
  inline [inline_parent "strong" [inline_parent "emphasis" [text_node "x"]];
          inline_parent "emphasis" [inline_parent "strong" [text_node "y"]]]
  = Ok "<b><i>x</i></b><i><b>y</b></i>".
Proof. reflexivity. Qed.

Lemma inline_node_raises (n : node) (e : exn) :
  inline_node n = Raise e ->
  exists k, e = KeyError k /\ k ∈ inline_keys.
Proof.
  revert e. induction n as [t r tx ch a IH] using node_nested_ind.
  assert (Hch : forall cs e, ch = Some cs -> inline cs = Raise e ->
                             exists k, e = KeyError k /\ k ∈ inline_keys).
  { intros cs e E. specialize (IH cs E). clear E. revert e.
    induction IH as [|c rest Hc _ IHrest]; intros e; [discriminate|].
    rewrite inline_cons.
    destruct (inline_node c) as [s1|e1] eqn:E1.
    - destruct (inline rest) as [s2|e2] eqn:E2; [discriminate|].
      intros [= <-]. by apply IHrest.
    - intros [= <-]. by apply Hc. }
  intros e. rewrite inline_node_unfold. cbn [type raw children attrs].
  assert (Hkey : forall k, k ∈ inline_keys ->
                           exists k', KeyError k = KeyError k' /\ k' ∈ inline_keys)
    by eauto.
  repeat match goal with
         | |- context [String.eqb t ?k] => destruct (String.eqb t k)
         end;
    repeat match goal with
           | |- Ok _ = Raise _ -> _ => discriminate
           | |- Raise (KeyError ?k) = Raise _ -> _ =>
               intros [= <-]; apply Hkey; unfold inline_keys; set_solver
           | |- inline ?cs = Raise _ -> _ => by apply Hch
           | |- context [match inline ?cs with _ => _ end] =>
               let E := fresh "E" in
               destruct (inline cs) eqn:E;
               [|intros [= <-]; by eapply Hch]
           | |- context [match ?o with Some _ => _ | None => _ end] =>
               destruct o eqn:?
           end.
Qed.


(** X3. The only exception the composer raises is [KeyError], for one of
    the keys "raw", "children", "attrs" and "url". *)
Theorem inline_raises_only_key_errors (cs : list node) (e : exn)
    (Hraise : inline cs = Raise e) :
  exists k, e = KeyError k /\ k ∈ inline_keys.
Proof.
  revert e Hraise. induction cs as [|c rest IH]; intros e; [discriminate|].
  rewrite inline_cons.
  destruct (inline_node c) as [s1|e1] eqn:E1.
  - destruct (inline rest) as [s2|e2] eqn:E2; [discriminate|].
    intros [= <-]. by apply IH.
  - intros [= <-]. by eapply inline_node_raises.
Qed.

Lemma inline_raises_only_key_errors_witness :
  exists k, KeyError "attrs" = KeyError k /\ k ∈ inline_keys.
Proof.
  apply (inline_raises_only_key_errors [text_node "a"; bare_link]).
  reflexivity.
Defined.

(** ** The flow is only appended to *)

Section FlowIndependence.
Variable ss : gmap string ParagraphStyle.

Lemma para_flow (txt : string) (flow : list flowable) :
  para ss txt flow = (out <- para ss txt [] ;; Ok (flow ++ out)).
Proof. unfold para. by destruct (ss_getitem ss "Body"). Qed.

Lemma heading_flow (txt : string) (lvl : Z) (flow : list flowable) :
  heading ss txt lvl flow = (out <- heading ss txt lvl [] ;; Ok (flow ++ out)).
Proof. unfold heading. cbv zeta. by destruct (ss_getitem ss _). Qed.

Lemma bullet_list_flow (items : list string) (ord : bool)
    (flow : list flowable) :
  bullet_list ss items ord flow
  = (out <- bullet_list ss items ord [] ;; Ok (flow ++ out)).
Proof. unfold bullet_list. by destruct (list_items ss items). Qed.

Lemma codeblock_flow (code : string) (flow : list flowable) :
  codeblock ss code flow = (out <- codeblock ss code [] ;; Ok (flow ++ out)).
Proof. unfold codeblock. by destruct (ss_getitem ss "Code"). Qed.

Lemma hr_flow (flow : list flowable) :
  hr flow = (out <- hr [] ;; Ok (flow ++ out)).
Proof. unfold hr. simpl. by rewrite <- !app_assoc. Qed.

(** What one pass of the loop appends does not depend on the flow built
    so far. *)
Lemma block_flow (n : node) (flow : list flowable) :
  block ss n flow = (out <- block ss n [] ;; Ok (flow ++ out)).
Proof.
  unfold block. cbv zeta.
  repeat match goal with
         | |- context [String.eqb (type n) ?k] =>
             destruct (String.eqb (type n) k)
         end;
    repeat match goal with
           | |- hr _ = _ => apply hr_flow
           | |- para _ _ _ = _ => apply para_flow
           | |- heading _ _ _ _ = _ => apply heading_flow
           | |- bullet_list _ _ _ _ = _ => apply bullet_list_flow
           | |- codeblock _ _ _ = _ => apply codeblock_flow
           | |- Raise _ = _ => reflexivity
           | |- Ok ?f = Ok (?f ++ []) => by rewrite app_nil_r
           | |- Ok _ = _ => reflexivity
           | |- context [match ?x with _ => _ end] => destruct x
           end.
Qed.

Lemma walk_flow (ast : list node) (flow : list flowable) :
  walk ss ast flow = (out <- walk ss ast [] ;; Ok (flow ++ out)).
Proof.
  revert flow. induction ast as [|n ast IH]; intros flow.
  - simpl. by rewrite app_nil_r.
  - rewrite !walk_cons, block_flow.
    destruct (block ss n []) as [o|e]; [|reflexivity].
    rewrite (IH (flow ++ o)), (IH o). simpl.
    destruct (walk ss ast []) as [o2|e]; [|reflexivity].
    by rewrite app_assoc.
Qed.
End FlowIndependence.

(** X4. Rendering two token lists one after the other gives the flow of
    the first followed by the flow of the second; when one of them raises,
    the exception of the first that raises is the result and no flow is
    produced. *)
Theorem md_to_pdf_concatenates (ast1 ast2 : list node) :
  md_to_pdf (ast1 ++ ast2)
  = (flow1 <- md_to_pdf ast1 ;; flow2 <- md_to_pdf ast2 ;; Ok (flow1 ++ flow2)).
Proof.
  rewrite !md_to_pdf_walk, walk_app.
  destruct (walk styles ast1 []) as [f1|e]; [|reflexivity].
  apply walk_flow.
Qed.

(** ** The flow of a well-formed tree *)





(** ** What the renderer can raise *)














(** * Further properties of the aggregator *)

Module DemotionProps.
Import Aggregator AggregatorProps.

Lemma count_hashes_ge (n : nat) (s : list Z) :
  (n <= count_hashes (replicate n hash ++ s))%nat.
Proof. induction n as [|n IH]; simpl; lia. Qed.

(** X8. The pattern [(#{1,6})\s] matches at the head of a text exactly
    when the text opens with 1 to 6 hashes followed by a whitespace
    character, and group 1 is then that whole run of hashes; a run of 7
    hashes or more is never matched, not even in part. *)
Theorem marker_match_rule (s : list Z) (k : nat) :
  (match_marker 6 s = Some k <->
   (1 <= k <= 6)%nat /\
   exists w rest, is_space w = true /\ s = replicate k hash ++ w :: rest) /\
  match_marker 6 (replicate 7 hash ++ s) = None.
Proof.
  split.
  - rewrite match_marker_marker. apply marker_Some.
  - rewrite match_marker_spec.
    pose proof (count_hashes_ge 7 s).
    by rewrite bool_decide_eq_false_2 by lia.
Qed.



Lemma concat_lines (s : list Z) : concat (lines s) = s.
Proof.
  induction s as [|c s IH]; [reflexivity|]. simpl.
  destruct (c =? newline).
  - simpl. by rewrite IH.
  - destruct (lines s) as [|l ls].
    + simpl in *. by subst s.
    + simpl in *. by rewrite IH.
Qed.

(** X10. For every delta, a text none of whose lines opens with 1 to 6
    hashes followed by a whitespace character is returned unchanged. *)
Theorem demote_unmarked (md : list Z) (delta : Z)
    (Hnone : Forall (fun line => marker line = None) (lines md)) :
  demote_headings md delta = md.
Proof.
  rewrite demote_headings_lines. rewrite <- (concat_lines md) at 2.
  f_equal. induction Hnone as [|l ls Hl _ IH]; [reflexivity|].
  simpl. rewrite IH. f_equal. unfold demote_line. by rewrite Hl.
Qed.

Lemma demote_unmarked_witness :
  demote_headings (str "####### seven" ++ newline :: str "#hashtag" ++ newline
                   :: str " # indented" ++ newline :: str "a # b") 1
  = str "####### seven" ++ newline :: str "#hashtag" ++ newline
    :: str " # indented" ++ newline :: str "a # b".
Proof. apply demote_unmarked. vm_compute. repeat constructor. Defined.

Lemma demote_line_length (line : list Z) :
  (length line <= length (demote_line 1 line) <= length line + 1)%nat.
Proof.
  unfold demote_line. destruct (marker line) as [k|] eqn:Em; [|lia].
  apply marker_Some in Em as (Hk & w & rest & Hw & ->).
  assert (drop (S k) (replicate k hash ++ w :: rest) = rest) as ->.
  { rewrite cons_middle, app_assoc. apply drop_app_length'.
    rewrite length_app, length_replicate. simpl. lia. }
  unfold repl, hashes. rewrite !length_app, !length_replicate. simpl. lia.
Qed.

(** X11. Demotion by one never removes a character and adds at most one
    character per line. *)
Theorem demote_length (md : list Z) :
  (length md <= length (demote_headings md 1)
   <= length md + length (lines md))%nat.
Proof.
  rewrite demote_headings_lines.
  assert (forall ls : list (list Z),
            (length (concat ls)
             <= length (concat (map (demote_line 1) ls))
             <= length (concat ls) + length ls)%nat) as H.
  { induction ls as [|l ls IH]; simpl; [lia|].
    rewrite !length_app. pose proof (demote_line_length l). lia. }
  specialize (H (lines md)). by rewrite concat_lines in H.
Qed.

End DemotionProps.

(** ** Absolute links *)

Module LinksProps.
Import Aggregator Links.

Lemma non_paren_run_app (x rest : list Z) :
  rparen ∉ x -> non_paren_run (x ++ rparen :: rest) = x.
Proof.
  induction x as [|c x IH]; intros Hx; simpl; [reflexivity|].
  apply not_elem_of_cons in Hx as [Hc Hx].
  destruct (Z.eqb_spec c rparen); [done|]. by rewrite IH.
Qed.

Lemma match_abs_link_found (x rest : list Z) :
  x <> [] -> rparen ∉ x ->
  match_abs_link (str "](/" ++ x ++ rparen :: rest) = Some (slash :: x).
Proof.
  intros Hne Hx.
  change (str "](/" ++ x ++ rparen :: rest)
    with (rbracket :: lparen :: slash :: (x ++ rparen :: rest)).
  unfold match_abs_link.
  change ((rbracket =? rbracket) && (lparen =? lparen) && (slash =? slash))
    with true.
  cbv iota zeta. rewrite non_paren_run_app by done.
  destruct x as [|z l]; [done|]. by rewrite drop_app_length.
Qed.

Lemma links_scan_here (c : Z) (rest : list Z) :
  links_scan 0 (c :: rest)
  = match match_abs_link (c :: rest) with
    | Some g => link_repl g ++ links_scan (length g + 2) rest
    | None => c :: links_scan 0 rest
    end.
Proof. reflexivity. Qed.

Lemma links_scan_skip (u rest : list Z) :
  links_scan (length u) (u ++ rest) = links_scan 0 rest.
Proof. induction u as [|c u IH]; simpl; [reflexivity|exact IH]. Qed.

Lemma links_scan_copy (pre rest : list Z) :
  rbracket ∉ pre -> links_scan 0 (pre ++ rest) = pre ++ links_scan 0 rest.
Proof.
  induction pre as [|c pre IH]; intros Hpre; [reflexivity|].
  apply not_elem_of_cons in Hpre as [Hc Hpre].
  rewrite <- !app_comm_cons, links_scan_here.
  assert (match_abs_link (c :: pre ++ rest) = None) as ->.
  { unfold match_abs_link. destruct (pre ++ rest) as [|b [|d t]]; try done.
    destruct (Z.eqb_spec c rbracket); [done|reflexivity]. }
  by rewrite IH.
Qed.

(** X12. A link target that starts with a slash gets the site prefix: a
    text without closing bracket, then ["](/"], a non-empty path without
    closing parenthesis and [")"] is rewritten to the same text with
    ["](https://esphome.io/"] before the path; the rest of the document is
    rewritten on its own. *)
Theorem abs_link_rewritten (pre x post : list Z)
    (Hpre : rbracket ∉ pre)
    (Hne : x <> [])
    (Hx : rparen ∉ x) :
  fix_abs_links (pre ++ str "](/" ++ x ++ rparen :: post)
  = pre ++ str "](https://esphome.io/" ++ x ++ rparen :: fix_abs_links post.
Proof.
  unfold fix_abs_links. rewrite links_scan_copy by done. f_equal.
  pose proof (match_abs_link_found x post Hne Hx) as Hm.
  change (str "](/" ++ x ++ rparen :: post)
    with (rbracket :: lparen :: slash :: x ++ rparen :: post) in *.
  rewrite links_scan_here, Hm. unfold link_repl.
  replace (lparen :: slash :: x ++ rparen :: post)
    with ((lparen :: slash :: x ++ [rparen]) ++ post)
    by (simpl; by rewrite <- app_assoc).
  replace (length (slash :: x) + 2)%nat
    with (length (lparen :: slash :: x ++ [rparen]))
    by (simpl; rewrite length_app; simpl; lia).
  rewrite links_scan_skip. simpl. rewrite <- !app_assoc. reflexivity.
Qed.

Lemma abs_link_rewritten_witness :
  fix_abs_links (str "see [wifi" ++ str "](/" ++ str "components/wifi"
                 ++ rparen :: str " and [x](y)")
  = str "see [wifi" ++ str "](https://esphome.io/" ++ str "components/wifi"
    ++ rparen :: fix_abs_links (str " and [x](y)").
Proof.
  apply (abs_link_rewritten (str "see [wifi") (str "components/wifi")
           (str " and [x](y)")).
  - eapply (bool_decide_unpack _). vm_compute. exact I.
  - discriminate.
  - eapply (bool_decide_unpack _). vm_compute. exact I.
Defined.

(** X13. A text in which the pattern matches nowhere is returned
    unchanged: relative links, links that are absolute already and the
    empty path ["](/)"] are left alone. *)
Theorem no_abs_link_unchanged (md : list Z)
    (Hnone : forall i, match_abs_link (drop i md) = None) :
  fix_abs_links md = md.
Proof.
  unfold fix_abs_links. induction md as [|c md IH]; [reflexivity|].
  rewrite links_scan_here.
  rewrite (Hnone 0%nat : match_abs_link (c :: md) = None).
  f_equal. apply IH. intros i. apply (Hnone (S i)).
Qed.

Lemma no_abs_link_unchanged_witness :
  fix_abs_links (str "[a](b) [c](/) ](/x") = str "[a](b) [c](/) ](/x".
Proof.
  apply no_abs_link_unchanged. intros i.
  do 19 (destruct i as [|i]; [reflexivity|]). by destruct i.
Defined.

Example absolute_link_kept :
  fix_abs_links (str "[doc](https://esphome.io/guides)")
  = str "[doc](https://esphome.io/guides)".
Proof. reflexivity. Qed.

End LinksProps.

(** ** Front matter *)

Module FrontMatterProps.
Import Aggregator FrontMatter.

Lemma starts_with_spec (p s : list Z) :
  starts_with p s = true <-> exists t, s = p ++ t.
Proof.
  revert s. induction p as [|a p IH]; intros s; simpl.
  - split; [by exists s|done].
  - destruct s as [|b s].
    + split; [done|by intros (t & ?)].
    + rewrite andb_true_iff, Z.eqb_eq, IH. split.
      * intros (-> & t & ->). by exists t.
      * intros (t & [= -> ->]). split; [done|by exists t].
Qed.

(** The lazy search stops at the first closing line. *)
Lemma find_closing_Some (t : list Z) (j : nat) :
  find_closing t = Some j ->
  t = take j t ++ closing ++ drop (j + 5) t /\
  forall i, (i < j)%nat -> starts_with closing (drop i t) = false.
Proof.
  revert j. induction t as [|c t IH]; intros j; [discriminate|].
  cbn [find_closing].
  destruct (starts_with closing (c :: t)) eqn:Es.
  - intros [= <-]. split; [|lia].
    apply starts_with_spec in Es as (rest & ->). reflexivity.
  - destruct (find_closing t) as [j'|]; [|discriminate].
    intros [= <-]. destruct (IH j' eq_refl) as [Ht Hmin]. split.
    + simpl. f_equal. exact Ht.
    + intros [|i] Hi; [exact Es|]. apply Hmin. lia.
Qed.

Lemma find_closing_None (t : list Z) :
  find_closing t = None -> forall i, starts_with closing (drop i t) = false.
Proof.
  induction t as [|c t IH]; intros H i.
  - by destruct i.
  - cbn [find_closing] in H.
    destruct (starts_with closing (c :: t)) eqn:Es; [discriminate|].
    destruct (find_closing t) as [j'|]; [discriminate|].
    destruct i as [|i]; [exact Es|]. by apply IH.
Qed.

Section Yaml.
Variable meta : Type.
Variable empty_dict : meta.
Variable load_dict : list Z -> option meta.

(** X14. [parse_frontmatter] either returns the text as it is, with the
    empty dict, and then the text does not open with ["---\n"] or no
    ["\n---\n"] follows the opening; or the text is the opening, a block,
    the first ["\n---\n"] after the opening and the returned body, in this
    order, the dict being what the loader makes of the stripped block. *)
Theorem frontmatter_split (md : list Z) :
  (parse_frontmatter meta empty_dict load_dict md = (empty_dict, md) /\
   (starts_with opening md = false \/
    forall i, starts_with closing (drop i (drop 4 md)) = false)) \/
  exists inner body,
    md = opening ++ inner ++ closing ++ body /\
    (forall i, (i < length inner)%nat ->
               starts_with closing (drop i (inner ++ closing ++ body)) = false) /\
    parse_frontmatter meta empty_dict load_dict md
    = (default empty_dict (load_dict (strip ([10] ++ inner ++ [10]))), body).
Proof.
  unfold parse_frontmatter, front_match.
  destruct (starts_with opening md) eqn:Eo; [|left; by auto].
  destruct (find_closing (drop 4 md)) as [j|] eqn:Ej.
  - right. apply starts_with_spec in Eo as (t & ->).
    change (drop 4 (opening ++ t)) with t in *.
    destruct (find_closing_Some t j Ej) as [Ht Hmin].
    exists (take j t), (drop (j + 5) t).
    assert (Hlen : length (take j t) = j).
    { apply length_take_le. apply (f_equal length) in Ht.
      rewrite !length_app, length_take in Ht.
      change (length closing) with 5%nat in Ht. lia. }
    split; [by rewrite <- Ht|]. split; [|reflexivity].
    intros i Hi. rewrite <- Ht. apply Hmin. lia.
  - left. split; [reflexivity|]. right. by apply find_closing_None.
Qed.
End Yaml.

Example front_matter_removed :
  parse_frontmatter (list Z) [] (fun fm => Some fm)
    (opening ++ str "title: Wifi" ++ closing ++ str "# Wifi")
  = (str "title: Wifi", str "# Wifi").
Proof. reflexivity. Qed.

(** An empty block is not recognized: the newline of the opening cannot
    be the newline before the closing dashes. *)
Example empty_front_matter_kept :
  parse_frontmatter (list Z) [] (fun fm => Some fm) (opening ++ str "---" ++ [10] ++ str "x")
  = ([], opening ++ str "---" ++ [10] ++ str "x").
Proof. reflexivity. Qed.

End FrontMatterProps.

(** ** The order of the collected files *)

Module CollectProps.
Import Collect.

Lemma str_ltb_irrefl (a : list Z) : str_ltb a a = false.
Proof.
  induction a as [|x a IH]; simpl; [reflexivity|].
  by rewrite Z.ltb_irrefl, Z.eqb_refl, IH.
Qed.

Lemma str_ltb_trans (a b c : list Z) :
  str_ltb a b = true -> str_ltb b c = true -> str_ltb a c = true.
Proof.
  revert b c. induction a as [|x a IH]; intros [|y b] [|z c]; simpl; try done.
  rewrite !orb_true_iff, !andb_true_iff, !Z.ltb_lt, !Z.eqb_eq.
  intros [?|[-> ?]] [?|[-> ?]]; eauto with lia.
Qed.

Lemma str_ltb_total (a b : list Z) :
  str_ltb a b = false -> str_ltb b a = false -> a = b.
Proof.
  revert b. induction a as [|x a IH]; intros [|y b]; simpl; try done.
  rewrite !orb_false_iff, !andb_false_iff, !Z.ltb_ge, !Z.eqb_neq.
  intros [? [?|?]] [? [?|?]]; try lia.
  assert (x = y) as -> by lia. f_equal. by apply IH.
Qed.

Lemma key_ltb_irrefl (a : Z * Z * list Z) : key_ltb a a = false.
Proof.
  destruct a as [[d w] s]. unfold key_ltb.
  by rewrite !Z.eqb_refl, str_ltb_irrefl.
Qed.

Lemma key_ltb_trans (a b c : Z * Z * list Z) :
  key_ltb a b = true -> key_ltb b c = true -> key_ltb a c = true.
Proof.
  destruct a as [[d1 w1] s1], b as [[d2 w2] s2], c as [[d3 w3] s3].
  unfold key_ltb.
  destruct (Z.eqb_spec d1 d2), (Z.eqb_spec d2 d3), (Z.eqb_spec d1 d3),
    (Z.eqb_spec w1 w2), (Z.eqb_spec w2 w3), (Z.eqb_spec w1 w3);
    simpl; rewrite ?Z.ltb_lt; try lia; try done.
  apply str_ltb_trans.
Qed.

Lemma key_ltb_total (a b : Z * Z * list Z) :
  key_ltb a b = false -> key_ltb b a = false -> a = b.
Proof.
  destruct a as [[d1 w1] s1], b as [[d2 w2] s2]. unfold key_ltb.
  destruct (Z.eqb_spec d1 d2), (Z.eqb_spec d2 d1),
    (Z.eqb_spec w1 w2), (Z.eqb_spec w2 w1);
    simpl; rewrite ?Z.ltb_ge; try lia.
  intros H1 H2. subst. f_equal. by apply str_ltb_total.
Qed.

Section Collect.
Variables (path meta title : Type).
Variable parent : path -> path.
Variable lower_str : path -> list Z.
Variable empty_dict : meta.
Variable load_dict : list Z -> option meta.
Variable int_weight : meta -> option Z.
Variable get_title : meta -> title.
Variable dweights : path -> option Z.

Local Abbreviation item := (item path title).
Local Abbreviation key := (sort_key path title lower_str).
Local Abbreviation le := (key_le path title lower_str).
Local Abbreviation insert := (insert_sorted path title lower_str).
Local Abbreviation sort := (sort_items path title lower_str).

Lemma key_le_trans (a b c : item) : le a b -> le b c -> le a c.
Proof.
  unfold key_le. intros Hab Hbc.
  destruct (key_ltb (key c) (key a)) eqn:Hca; [|reflexivity].
  destruct (key_ltb (key a) (key b)) eqn:Hab'.
  - by rewrite (key_ltb_trans _ _ _ Hca Hab') in Hbc.
  - rewrite <- (key_ltb_total _ _ Hab' Hab) in Hbc. congruence.
Qed.

Lemma key_lt_le (a b : item) : key_ltb (key a) (key b) = true -> le a b.
Proof.
  unfold key_le. intros Hab.
  destruct (key_ltb (key b) (key a)) eqn:Hba; [|reflexivity].
  pose proof (key_ltb_trans _ _ _ Hab Hba) as H.
  by rewrite key_ltb_irrefl in H.
Qed.

Lemma insert_perm (x : item) (l : list item) : insert x l ≡ₚ x :: l.
Proof.
  induction l as [|y l IH]; cbn [insert_sorted]; [reflexivity|].
  destruct (key_ltb (key y) (key x)); [|reflexivity].
  rewrite IH. apply Permutation_swap.
Qed.

Lemma insert_sorted_sorted (x : item) (l : list item) :
  StronglySorted le l -> StronglySorted le (insert x l).
Proof.
  induction 1 as [|y l Hl IH Hy]; cbn [insert_sorted].
  - repeat constructor.
  - destruct (key_ltb (key y) (key x)) eqn:Hyx.
    + constructor; [exact IH|]. rewrite insert_perm.
      constructor; [by apply key_lt_le|exact Hy].
    + constructor; [by constructor|].
      constructor; [exact Hyx|].
      eapply Forall_impl; [exact Hy|]. intros z Hz.
      by apply (key_le_trans x y z).
Qed.

Lemma sort_perm (l : list item) : sort l ≡ₚ l.
Proof.
  induction l as [|x l IH]; cbn [sort_items]; [reflexivity|].
  by rewrite insert_perm, IH.
Qed.

Lemma sort_sorted (l : list item) : StronglySorted le (sort l).
Proof.
  induction l as [|x l IH]; cbn [sort_items]; [constructor|].
  by apply insert_sorted_sorted.
Qed.

(** [a] at or before [b], spelled out on the components of the key. *)
Lemma key_le_components (a b : item) :
  le a b ->
  dir_weight _ _ a < dir_weight _ _ b \/
  (dir_weight _ _ a = dir_weight _ _ b /\
   (weight _ _ a < weight _ _ b \/
    (weight _ _ a = weight _ _ b /\
     str_ltb (lower_str (item_path _ _ b)) (lower_str (item_path _ _ a))
     = false))).
Proof.
  unfold key_le, sort_key, key_ltb.
  destruct (Z.eqb_spec (dir_weight _ _ b) (dir_weight _ _ a)); simpl.
  - destruct (Z.eqb_spec (weight _ _ b) (weight _ _ a)); simpl.
    + intros H. right. split; [done|]. right. by split.
    + rewrite Z.ltb_ge. intros H. right. split; [done|]. left. lia.
  - rewrite Z.ltb_ge. intros H. left. lia.
Qed.

(** X15. [collect] returns one item per file, none lost and none
    repeated, in the order of the keys: by the weight of the directory,
    then by the weight of the file, then by the lower-cased path; a file or
    directory without an integer weight counts as 10,000,000. *)
Theorem collect_sorted (files : list (path * list Z)) :
  let items := map (make_item path meta title parent empty_dict load_dict
                      int_weight get_title dweights) files in
  let result := collect path meta title parent lower_str empty_dict load_dict
                  int_weight get_title dweights files in
  result ≡ₚ items /\
  StronglySorted
    (fun a b =>
       dir_weight _ _ a < dir_weight _ _ b \/
       (dir_weight _ _ a = dir_weight _ _ b /\
        (weight _ _ a < weight _ _ b \/
         (weight _ _ a = weight _ _ b /\
          str_ltb (lower_str (item_path _ _ b)) (lower_str (item_path _ _ a))
          = false))))
    result /\
  Forall (fun file =>
            let it := make_item path meta title parent empty_dict load_dict
                        int_weight get_title dweights file in
            dir_weight _ _ it = default default_weight (dweights (parent file.1))
            /\ (int_weight
                  (FrontMatter.parse_frontmatter meta empty_dict load_dict
                     file.2).1 = None ->
                weight _ _ it = default_weight))
         files.
Proof.
  cbv zeta. unfold collect. split; [apply sort_perm|]. split.
  - generalize (sort_sorted
                  (map (make_item path meta title parent empty_dict load_dict
                          int_weight get_title dweights) files)).
    generalize (sort (map (make_item path meta title parent empty_dict
                             load_dict int_weight get_title dweights) files)).
    induction 1 as [|a l Hl IH Ha]; constructor; [exact IH|].
    eapply Forall_impl; [exact Ha|]. intros b. apply key_le_components.
  - apply Forall_forall. intros [p text] _. unfold make_item. simpl.
    destruct (FrontMatter.parse_frontmatter meta empty_dict load_dict text)
      as [m b]. simpl. split; [reflexivity|]. by intros ->.
Qed.
End Collect.

Example collect_three_files :
  map (item_path nat (list Z))
      (collect nat (option Z) (list Z) (fun p => 0%nat)
         (fun p => match p with
                   | 1%nat => Aggregator.str "content/b.md"
                   | 2%nat => Aggregator.str "content/a.md"
                   | _ => Aggregator.str "content/_index.md"
                   end)
         None
         (fun fm => match fm with
                    | 119 :: _ => Some (Some 5)
                    | _ => None
                    end)
         (fun m => m) (fun m => []) (fun d => None)
         [(1%nat, Aggregator.str "no front matter");
          (2%nat, Aggregator.str "also none");
          (3%nat, FrontMatter.opening ++ Aggregator.str "weight: 5"
                  ++ FrontMatter.closing ++ Aggregator.str "index")])
  = [3%nat; 2%nat; 1%nat].
Proof. reflexivity. Qed.

End CollectProps.
